(** * Guest-space parameter reconciliation of [useContentfulUtility]

    Shallow embedding of
    [src/components/features/contentful-utility/useContentfulUtility.ts]:
    the zustand session store, the [useEffect] body that reconciles the router
    query with the store, and the part of the hook that decides whether a
    GraphQL client is built. *)

From stdpp Require Import base strings list gmap.

(** ** JavaScript values *)

(** The values that can sit in the store object: [undefined], booleans,
    strings, and the string arrays the router yields for a repeated query
    parameter. *)
Inductive JsVal : Type :=
  | VUndef
  | VBool (b : bool)
  | VStr (s : string)
  | VArr (l : list string).

(** A value of the router query: [string | string[]]. *)
Inductive QVal : Type :=
  | QStr (s : string)
  | QArr (l : list string).

Definition of_query (v : QVal) : JsVal :=
  match v with
  | QStr s => VStr s
  | QArr l => VArr l
  end.

(** JavaScript truthiness, as used by [if (x)], [!x] and [c ? a : b]. *)
Definition js_truthy (v : JsVal) : bool :=
  match v with
  | VUndef => false
  | VBool b => b
  | VStr EmptyString => false
  | VStr (String _ _) => true
  | VArr _ => true
  end.

(** [Array.prototype.join(",")] on an array of strings. *)
Fixpoint js_join (l : list string) : string :=
  match l with
  | [] => ""
  | [s] => s
  | s :: rest => s +:+ "," +:+ js_join rest
  end.

(** String conversion performed by a template literal [`${v}`]. *)
Definition js_to_string (v : JsVal) : string :=
  match v with
  | VUndef => "undefined"
  | VBool true => "true"
  | VBool false => "false"
  | VStr s => s
  | VArr l => js_join l
  end.

(** Strict equality [value === 'lit'] of a query value with a string literal. *)
Definition strict_eq_lit (v : QVal) (lit : string) : bool :=
  match v with
  | QStr s => bool_decide (s = lit)
  | QArr _ => false
  end.

(** ** The constants module *)

(** Modelled from the spec: the module
    [@src/components/features/contentful-utility/constants] is imported by the
    hook but is not part of the sources at hand.  The parameter names and the
    three category lists follow the classification of the specification
    (required-guest [space_id], [delivery_token]; optional-guest
    [preview_token]; editorial [preview], [xray]); the reset parameter is the
    [reset] of the specification's scenario. *)
Module ContentfulParams.
Definition space_id : string := "space_id".
Definition delivery_token : string := "delivery_token".
Definition preview_token : string := "preview_token".
Definition preview : string := "preview".
Definition xray : string := "xray".
Definition reset : string := "reset".
End ContentfulParams.

Definition guestSpaceRequiredParameters : list string :=
  [ContentfulParams.space_id; ContentfulParams.delivery_token].

Definition guestSpaceOptionalParameters : list string :=
  [ContentfulParams.preview_token].

Definition editorialParameters : list string :=
  [ContentfulParams.preview; ContentfulParams.xray].

Definition resetParam : string := ContentfulParams.reset.

(** ** The router query *)

(** The query object, as the list [Object.entries(query)] of its own
    properties in enumeration order.  An object has each key once:
    [wf_query]. *)
Abbreviation Query := (list (string * QVal)).

Definition wf_query (q : Query) : Prop := NoDup q.*1.

(** Property read [query[key]]: the value of the entry, [undefined] when the
    object has no such property. *)
Fixpoint query_get (q : Query) (key : string) : JsVal :=
  match q with
  | [] => VUndef
  | (k, v) :: rest => if bool_decide (k = key) then of_query v else query_get rest key
  end.

(** [key in query]: the object has the property at all. *)
Definition query_has (q : Query) (key : string) : Prop := key ∈ q.*1.

(** ** The zustand store *)

(** The state object of the store, and the record of the [setState] calls made
    on it (oldest first).  The state is a plain object keyed by property
    name; the call record is kept only so that statements about the writes of
    a pass can be made. *)
Record Store : Type := mkStore {
  state : gmap string JsVal;
  calls : list (string * JsVal);
}.

(** Property read [store[key]]. *)
Definition store_get (st : gmap string JsVal) (key : string) : JsVal :=
  default VUndef (st !! key).

(** [useContentfulUtilityStore.setState({ [key]: v })]: zustand merges the
    partial object into the state with [Object.assign({}, state, partial)]. *)
Definition setState (key : string) (v : JsVal) (s : Store) : Store :=
  {| state := <[key := v]> (state s); calls := calls s ++ [(key, v)] |}.

(** The state the store is created with (lines 27-31). *)
Definition initialState : gmap string JsVal :=
  <["preview" := VBool false]>
    (<["xray" := VBool false]>
       (<["domain" := VStr "contentful.com"]> ∅)).

(** ** The effect: reconciliation of the query with the store *)

(** [new Set([...required, ...optional, ...editorial])] (lines 53-57). *)
Definition allParams : gset string :=
  list_to_set (guestSpaceRequiredParameters ++ guestSpaceOptionalParameters
                 ++ editorialParameters).

(** [Object.fromEntries(Object.entries(query).filter(([key]) => allParams.has(key)))]
    (lines 60-62). *)
Definition filterQuery (query : Query) : Query :=
  filter (λ e, e.1 ∈ allParams) query.

(** [guestSpaceRequiredParameters.some(key => !obj[key])] for a query object. *)
Definition some_required_missing (get : string → JsVal) : bool :=
  existsb (λ key, negb (js_truthy (get key))) guestSpaceRequiredParameters.

(** The callback of [Object.entries(filteredQuery).forEach] (lines 64-96). *)
Definition forEach_callback (query filteredQuery : Query)
    (s : Store) (entry : string * QVal) : Store :=
  let '(key, value) := entry in
  if bool_decide (key = ContentfulParams.preview ∨ key = ContentfulParams.xray) then
    let s1 := if strict_eq_lit value "true" then setState key (VBool true) s else s in
    let s2 := if strict_eq_lit value "false" then setState key (VBool false) s1 else s1 in
    s2
  else if js_truthy (query_get query resetParam) then s
  else if some_required_missing (query_get filteredQuery) then s
  else if bool_decide (key ∈ guestSpaceOptionalParameters)
          && negb (js_truthy (query_get query key))
       then setState key VUndef s
  else setState key (of_query value) s.

(** The body of the effect (lines 42-97), run once per change of the query. *)
Definition useEffect_body (query : Query) (s : Store) : Store :=
  if js_truthy (query_get query resetParam) then
    foldl (λ s key, setState key VUndef s) s
          (guestSpaceRequiredParameters ++ guestSpaceOptionalParameters)
  else
    let filteredQuery := filterQuery query in
    foldl (forEach_callback query filteredQuery) s filteredQuery.

(** A reconciliation pass on a state: the state the effect leaves, and the
    [setState] calls it made. *)
Definition reconcile (query : Query) (st : gmap string JsVal) : gmap string JsVal :=
  state (useEffect_body query (mkStore st [])).

Definition writes (query : Query) (st : gmap string JsVal) : list (string * JsVal) :=
  calls (useEffect_body query (mkStore st [])).

(** ** The client gate *)

(** The arguments [new GraphQLClient(url, { headers })] is called with. *)
Record GraphQLClient : Type := mkClient {
  url : string;
  headers : list (string * string);
}.

(** The object the hook returns; [client] is [None] for [null], and otherwise
    the client [getSdk] wraps. *)
Record HookResult : Type := mkResult {
  res_preview : JsVal;
  res_xray : JsVal;
  client : option GraphQLClient;
}.

(** Lines 99-126: the value the hook returns for a query and a store state. *)
Definition useContentfulUtility_result (query : Query) (store : gmap string JsVal)
    : HookResult :=
  let space_id := store_get store "space_id" in
  let preview_token := store_get store "preview_token" in
  let delivery_token := store_get store "delivery_token" in
  let domain := store_get store "domain" in
  let preview := store_get store "preview" in
  let xray := store_get store "xray" in
  if some_required_missing (store_get store) || js_truthy (query_get query resetParam) then
    {| res_preview := preview; res_xray := xray; client := None |}
  else
    let graphQlClient :=
      {| url := "https://graphql." +:+ js_to_string domain
                  +:+ "/content/v1/spaces/" +:+ js_to_string space_id +:+ "/";
         headers :=
           [("Content-Type", "application/json");
            ("Authorization",
             "Bearer " +:+ js_to_string
                            (if js_truthy preview then preview_token else delivery_token))] |} in
    {| res_preview := preview; res_xray := xray; client := Some graphQlClient |}.

(** ** Writes as data *)

(** The effect of a list of [setState] calls on a store. *)
Definition replay (ops : list (string * JsVal)) (st : gmap string JsVal)
    : gmap string JsVal :=
  foldl (λ m op, <[op.1 := op.2]> m) st ops.

Definition push (ops : list (string * JsVal)) (s : Store) : Store :=
  {| state := replay ops (state s); calls := calls s ++ ops |}.

(** The [setState] calls one invocation of the callback makes, read off a run
    on an empty store. *)
Definition entry_writes (query filteredQuery : Query) (entry : string * QVal)
    : list (string * JsVal) :=
  calls (forEach_callback query filteredQuery (mkStore ∅ []) entry).

(** The writes of a pass, as a function of the query alone. *)
Definition pass_writes (query : Query) : list (string * JsVal) :=
  if js_truthy (query_get query resetParam) then
    (λ key, (key, VUndef)) <$> (guestSpaceRequiredParameters ++ guestSpaceOptionalParameters)
  else
    filterQuery query ≫= entry_writes query (filterQuery query).

(** The last value written to [key] by a list of calls, if any. *)
Definition last_write (ops : list (string * JsVal)) (key : string) : option JsVal :=
  foldl (λ acc op, if bool_decide (op.1 = key) then Some op.2 else acc) None ops.

(** The part of a query the effect can look at: the recognised parameters and
    the reset parameter. *)
Definition relevant_part (query : Query) : Query :=
  filter (λ e, e.1 ∈ allParams ∨ e.1 = resetParam) query.

(** Store states reachable from the initial state by reconciliation passes. *)
Inductive reachable : gmap string JsVal → Prop :=
  | reachable_initial : reachable initialState
  | reachable_pass (query : Query) (st : gmap string JsVal) :
      reachable st → reachable (reconcile query st).

(** Store states reachable from the initial state by passes on query objects,
    that is on entry lists with each key once. *)
Inductive reachable_obj : gmap string JsVal → Prop :=
  | reachable_obj_initial : reachable_obj initialState
  | reachable_obj_pass (query : Query) (st : gmap string JsVal) :
      wf_query query → reachable_obj st → reachable_obj (reconcile query st).

(** ** Sample inputs *)

Definition fullState : gmap string JsVal :=
  <["space_id" := VStr "abc"]>
    (<["delivery_token" := VStr "tok1"]>
       (<["preview_token" := VStr "ptok"]> initialState)).

Definition resetQuery : Query := [("reset", QStr "1")].

Definition emptyResetQuery : Query := [("reset", QStr "")].

Definition requiredOnlyQuery : Query :=
  [("space_id", QStr "abc"); ("delivery_token", QStr "tok1")].

Definition spaceOnlyQuery : Query := [("space_id", QStr "abc"); ("xray", QStr "true")].

Definition emptySpaceQuery : Query :=
  [("space_id", QStr ""); ("delivery_token", QStr "tok1"); ("preview_token", QStr "p2")].

Definition previewQuery : Query := [("preview", QStr "maybe"); ("xray", QStr "true")].

Definition scenarioQuery : Query :=
  [("space_id", QStr "abc"); ("delivery_token", QStr "tok1"); ("preview", QStr "true")].

Definition scenarioQuerySwapped : Query :=
  [("delivery_token", QStr "tok1"); ("space_id", QStr "abc"); ("preview", QStr "true")].

Definition prunePreviewTokenQuery : Query :=
  [("space_id", QStr "abc"); ("delivery_token", QStr "tok1"); ("preview_token", QStr "")].

Definition campaignQuery : Query := [("utm_source", QStr "mail"); ("page", QStr "2")].

(** What the reset branch is to achieve on a state [st], as a property of the
    state [st'] after the pass: guest fields unset, editorial fields as
    before, and no client. *)
Definition reset_outcome (query : Query) (st st' : gmap string JsVal) : Prop :=
  (∀ key, key ∈ guestSpaceRequiredParameters ++ guestSpaceOptionalParameters →
          store_get st' key = VUndef)
  ∧ store_get st' "preview" = store_get st "preview"
  ∧ store_get st' "xray" = store_get st "xray"
  ∧ client (useContentfulUtility_result query st') = None.

Example reset_clears :
  reconcile [("reset", QStr "1")] fullState
  = <["preview_token" := VUndef]>
      (<["delivery_token" := VUndef]> (<["space_id" := VUndef]> fullState)).
Proof. reflexivity. Qed.

Example scenario_both_required :
  reconcile [("space_id", QStr "abc"); ("delivery_token", QStr "tok1");
             ("preview", QStr "true")] initialState
  = <["preview" := VBool true]>
      (<["delivery_token" := VStr "tok1"]>
         (<["space_id" := VStr "abc"]> initialState)).
Proof. reflexivity. Qed.

Example scenario_client :
  client (useContentfulUtility_result [] fullState)
  = Some {| url := "https://graphql.contentful.com/content/v1/spaces/abc/";
            headers := [("Content-Type", "application/json");
                        ("Authorization", "Bearer tok1")] |}.
Proof. reflexivity. Qed.

Example scenario_empty_reset :
  reconcile emptyResetQuery fullState = fullState.
Proof. reflexivity. Qed.

Example scenario_empty_preview_token :
  writes [("space_id", QStr "abc"); ("delivery_token", QStr "tok1");
          ("preview_token", QStr "")] fullState
  = [("space_id", VStr "abc"); ("delivery_token", VStr "tok1");
     ("preview_token", VUndef)].
Proof. reflexivity. Qed.

Example scenario_preview_without_token :
  client (useContentfulUtility_result []
            (reconcile [("space_id", QStr "abc"); ("delivery_token", QStr "tok1");
                        ("preview", QStr "true")] initialState))
  = Some {| url := "https://graphql.contentful.com/content/v1/spaces/abc/";
            headers := [("Content-Type", "application/json");
                        ("Authorization", "Bearer undefined")] |}.
Proof. reflexivity. Qed.

(** * Properties *)

(** ** Queries *)

Lemma query_get_absent (q : Query) (key : string) :
  ¬ query_has q key → query_get q key = VUndef.
Proof.
  unfold query_has. induction q as [|[k v] q IH]; simpl; [done|].
  intros Hn. case_bool_decide as Hk.
  - subst. exfalso. apply Hn. left.
  - apply IH. intros Hin. apply Hn. by right.
Qed.

Lemma query_get_entry (q : Query) (key : string) (v : QVal) :
  wf_query q → (key, v) ∈ q → query_get q key = of_query v.
Proof.
  unfold wf_query. induction q as [|[k w] q IH]; simpl.
  - intros _ Hin. by apply elem_of_nil in Hin.
  - intros Hnd Hin. apply NoDup_cons in Hnd as [Hk Hnd].
    apply elem_of_cons in Hin as [Heq|Hin].
    + injection Heq as -> ->. by rewrite bool_decide_eq_true_2.
    + rewrite bool_decide_eq_false_2; [by apply IH|].
      intros ->. apply Hk. apply list_elem_of_fmap. by exists (key, v).
Qed.

Lemma query_get_filter (P : string * QVal → Prop) `{!∀ e, Decision (P e)}
    (q : Query) (key : string) :
  (∀ v, P (key, v)) → query_get (filter P q) key = query_get q key.
Proof.
  intros HP. induction q as [|[k v] q IH]; [done|].
  rewrite filter_cons. simpl. case_decide as Hk; simpl.
  - by rewrite IH.
  - rewrite IH. rewrite bool_decide_eq_false_2; [done|]. intros ->. apply Hk, HP.
Qed.

Lemma query_get_filterQuery (q : Query) (key : string) :
  key ∈ allParams → query_get (filterQuery q) key = query_get q key.
Proof. intros H. unfold filterQuery. by apply query_get_filter. Qed.

Lemma elem_of_allParams (key : string) :
  key ∈ allParams ↔
  key = "space_id" ∨ key = "delivery_token" ∨ key = "preview_token"
  ∨ key = "preview" ∨ key = "xray".
Proof.
  unfold allParams. rewrite elem_of_list_to_set. cbv [app
    guestSpaceRequiredParameters guestSpaceOptionalParameters editorialParameters
    ContentfulParams.space_id ContentfulParams.delivery_token
    ContentfulParams.preview_token ContentfulParams.preview ContentfulParams.xray].
  rewrite !elem_of_cons. split; [|tauto].
  intros [?|[?|[?|[?|[?|Hnil]]]]]; auto 6. by apply elem_of_nil in Hnil.
Qed.

Lemma some_required_missing_unfold (get : string → JsVal) :
  some_required_missing get
  = negb (js_truthy (get "space_id")) || negb (js_truthy (get "delivery_token")).
Proof. unfold some_required_missing. simpl. by rewrite orb_false_r. Qed.

Lemma some_required_missing_filterQuery (q : Query) :
  some_required_missing (query_get (filterQuery q)) = some_required_missing (query_get q).
Proof.
  unfold some_required_missing. simpl.
  rewrite !query_get_filterQuery; [done| |]; apply elem_of_allParams; tauto.
Qed.

(** ** Replaying writes *)

Lemma replay_app (ops1 ops2 : list (string * JsVal)) (st : gmap string JsVal) :
  replay (ops1 ++ ops2) st = replay ops2 (replay ops1 st).
Proof. unfold replay. apply foldl_app. Qed.

Lemma push_nil (s : Store) : push [] s = s.
Proof. destruct s as [st cs]. unfold push. simpl. by rewrite app_nil_r. Qed.

Lemma push_app (ops1 ops2 : list (string * JsVal)) (s : Store) :
  push (ops1 ++ ops2) s = push ops2 (push ops1 s).
Proof. unfold push. simpl. by rewrite replay_app, app_assoc. Qed.

Lemma setState_push (key : string) (v : JsVal) (s : Store) :
  setState key v s = push [(key, v)] s.
Proof. reflexivity. Qed.

Lemma foldl_push {A} (f : A → list (string * JsVal)) (l : list A) (s : Store) :
  foldl (λ s x, push (f x) s) s l = push (l ≫= f) s.
Proof.
  revert s. induction l as [|x l IH]; intros s; simpl.
  - by rewrite push_nil.
  - by rewrite IH, push_app.
Qed.

Lemma foldl_ext_in {A B} (f g : B → A → B) (l : list A) (b : B) :
  (∀ b x, x ∈ l → f b x = g b x) → foldl f b l = foldl g b l.
Proof.
  revert b. induction l as [|x l IH]; intros b Hfg; simpl; [done|].
  rewrite Hfg by left. apply IH. intros b' y Hy. apply Hfg. by right.
Qed.

(** The value at a key after a replay is the last value written to it, or the
    old value when the key was not written. *)
Lemma last_write_snoc (ops : list (string * JsVal)) (op : string * JsVal) (key : string) :
  last_write (ops ++ [op]) key
  = if bool_decide (op.1 = key) then Some op.2 else last_write ops key.
Proof. unfold last_write. by rewrite foldl_app. Qed.

Lemma lookup_replay (ops : list (string * JsVal)) (st : gmap string JsVal) (key : string) :
  replay ops st !! key
  = match last_write ops key with Some v => Some v | None => st !! key end.
Proof.
  induction ops as [|op ops IH] using rev_ind; [done|].
  rewrite replay_app, last_write_snoc. simpl.
  case_bool_decide as Hk.
  - subst. by rewrite lookup_insert_eq.
  - by rewrite lookup_insert_ne.
Qed.

Lemma last_write_None (ops : list (string * JsVal)) (key : string) :
  Forall (λ op, op.1 ≠ key) ops → last_write ops key = None.
Proof.
  induction ops as [|op ops IH] using rev_ind; [done|].
  intros [Hops Hop]%Forall_app. apply Forall_cons in Hop as [Hop _].
  rewrite last_write_snoc. rewrite bool_decide_eq_false_2 by exact Hop. by apply IH.
Qed.

Lemma lookup_replay_untouched (ops : list (string * JsVal))
    (st : gmap string JsVal) (key : string) :
  Forall (λ op, op.1 ≠ key) ops → replay ops st !! key = st !! key.
Proof. intros H. by rewrite lookup_replay, last_write_None. Qed.

Lemma replay_idemp (ops : list (string * JsVal)) (st : gmap string JsVal) :
  replay ops (replay ops st) = replay ops st.
Proof.
  apply map_eq. intros key. rewrite (lookup_replay ops (replay ops st)).
  destruct (last_write ops key) as [v|] eqn:Hl; [|done].
  by rewrite lookup_replay, Hl.
Qed.

(** ** The effect as a list of writes *)

Lemma forEach_callback_push (query filteredQuery : Query) (s : Store)
    (entry : string * QVal) :
  forEach_callback query filteredQuery s entry
  = push (entry_writes query filteredQuery entry) s.
Proof.
  unfold entry_writes, forEach_callback. destruct entry as [key value].
  repeat case_match; simpl; rewrite ?setState_push, <- ?push_app, ?push_nil; done.
Qed.

Lemma useEffect_body_push (query : Query) (s : Store) :
  useEffect_body query s = push (pass_writes query) s.
Proof.
  unfold useEffect_body, pass_writes. case_match.
  - simpl. by rewrite !setState_push, <- !push_app.
  - rewrite <- foldl_push. apply foldl_ext_in.
    intros b x _. apply forEach_callback_push.
Qed.

Lemma reconcile_replay (query : Query) (st : gmap string JsVal) :
  reconcile query st = replay (pass_writes query) st.
Proof. unfold reconcile. by rewrite useEffect_body_push. Qed.

Lemma writes_pass_writes (query : Query) (st : gmap string JsVal) :
  writes query st = pass_writes query.
Proof. unfold writes. by rewrite useEffect_body_push. Qed.

(** ** What one callback invocation writes *)

Lemma entry_writes_unfold (query filteredQuery : Query) (key : string) (value : QVal) :
  entry_writes query filteredQuery (key, value)
  = if bool_decide (key = ContentfulParams.preview ∨ key = ContentfulParams.xray) then
      (if strict_eq_lit value "true" then [(key, VBool true)] else [])
        ++ (if strict_eq_lit value "false" then [(key, VBool false)] else [])
    else if js_truthy (query_get query resetParam) then []
    else if some_required_missing (query_get filteredQuery) then []
    else if bool_decide (key ∈ guestSpaceOptionalParameters)
            && negb (js_truthy (query_get query key))
         then [(key, VUndef)]
    else [(key, of_query value)].
Proof. unfold entry_writes, forEach_callback. by repeat case_match. Qed.

(** A callback invocation writes to the key of its own entry only. *)
Lemma entry_writes_own_key (query filteredQuery : Query) (entry : string * QVal) :
  Forall (λ op, op.1 = entry.1) (entry_writes query filteredQuery entry).
Proof.
  destruct entry as [key value]. rewrite entry_writes_unfold.
  repeat case_match; simpl; repeat constructor.
Qed.

(** Editorial keys only ever receive booleans, other keys are never written by
    an editorial entry. *)
Lemma entry_writes_editorial_bool (query filteredQuery : Query) (entry : string * QVal) :
  entry.1 ∈ editorialParameters →
  Forall (λ op, ∃ b, op.2 = VBool b) (entry_writes query filteredQuery entry).
Proof.
  destruct entry as [key value]. simpl. intros Hk. rewrite entry_writes_unfold.
  rewrite bool_decide_eq_true_2.
  - repeat case_match; simpl; repeat constructor; eauto.
  - unfold editorialParameters in Hk. rewrite !elem_of_cons, elem_of_nil in Hk. tauto.
Qed.

(** With a required parameter missing from the filtered query, only the
    editorial branch writes. *)
Lemma entry_writes_guest_skipped (query filteredQuery : Query) (entry : string * QVal) :
  some_required_missing (query_get filteredQuery) = true →
  entry.1 ∉ editorialParameters →
  entry_writes query filteredQuery entry = [].
Proof.
  destruct entry as [key value]. simpl. intros Hmiss Hk. rewrite entry_writes_unfold.
  rewrite bool_decide_eq_false_2.
  - rewrite Hmiss. by case_match.
  - unfold editorialParameters in Hk. rewrite !elem_of_cons in Hk. tauto.
Qed.

(** ** What a pass writes *)

Lemma pass_writes_reset (query : Query) :
  js_truthy (query_get query resetParam) = true →
  pass_writes query
  = [("space_id", VUndef); ("delivery_token", VUndef); ("preview_token", VUndef)].
Proof. unfold pass_writes. by intros ->. Qed.

Lemma pass_writes_no_reset (query : Query) :
  js_truthy (query_get query resetParam) = false →
  pass_writes query = filterQuery query ≫= entry_writes query (filterQuery query).
Proof. unfold pass_writes. by intros ->. Qed.

Lemma no_reset_falsy (query : Query) :
  ¬ query_has query resetParam → js_truthy (query_get query resetParam) = false.
Proof. intros H. by rewrite query_get_absent. Qed.

(** Every write of a pass goes to a recognised parameter. *)
Lemma pass_writes_recognised (query : Query) :
  Forall (λ op, op.1 ∈ allParams) (pass_writes query).
Proof.
  destruct (js_truthy (query_get query resetParam)) eqn:Hr.
  - rewrite pass_writes_reset by done.
    repeat constructor; apply elem_of_allParams; tauto.
  - rewrite pass_writes_no_reset by done. apply Forall_bind, Forall_forall.
    intros e [He _]%list_elem_of_filter. simpl.
    eapply Forall_impl; [apply entry_writes_own_key|].
    intros op Hop. simpl in Hop. by rewrite Hop.
Qed.

(** Outside the reset branch, a pass writes only to keys the query has. *)
Lemma pass_writes_present (query : Query) :
  js_truthy (query_get query resetParam) = false →
  Forall (λ op, query_has query op.1) (pass_writes query).
Proof.
  intros Hr. rewrite pass_writes_no_reset by done. apply Forall_bind, Forall_forall.
  intros e [_ He]%list_elem_of_filter. simpl.
  eapply Forall_impl; [apply entry_writes_own_key|].
  intros op Hop. simpl in Hop. unfold query_has. rewrite Hop.
  apply list_elem_of_fmap. by exists e.
Qed.

(** Editorial keys only ever receive booleans. *)
Lemma pass_writes_editorial_bool (query : Query) :
  Forall (λ op, op.1 ∈ editorialParameters → ∃ b, op.2 = VBool b) (pass_writes query).
Proof.
  destruct (js_truthy (query_get query resetParam)) eqn:Hr.
  - rewrite pass_writes_reset by done.
    repeat constructor; simpl; unfold editorialParameters;
      rewrite !elem_of_cons, elem_of_nil; intros [?|[?|[]]]; discriminate.
  - rewrite pass_writes_no_reset by done. apply Forall_bind, Forall_forall.
    intros e _. simpl. apply Forall_forall. intros op Hop Hed.
    pose proof (entry_writes_own_key query (filterQuery query) e) as Hown.
    rewrite Forall_forall in Hown. specialize (Hown op Hop). simpl in Hown.
    rewrite Hown in Hed.
    pose proof (entry_writes_editorial_bool query (filterQuery query) e Hed) as Hb.
    rewrite Forall_forall in Hb. by apply Hb.
Qed.

(** With a required parameter missing or empty, and no reset, a pass writes to
    editorial keys only. *)
Lemma pass_writes_incomplete (query : Query) :
  js_truthy (query_get query resetParam) = false →
  some_required_missing (query_get query) = true →
  Forall (λ op, op.1 ∈ editorialParameters) (pass_writes query).
Proof.
  intros Hr Hmiss. rewrite pass_writes_no_reset by done.
  apply Forall_bind, Forall_forall. intros e _. simpl.
  destruct (decide (e.1 ∈ editorialParameters)) as [Hed|Hed].
  - eapply Forall_impl; [apply entry_writes_own_key|].
    intros op Hop. simpl in Hop. by rewrite Hop.
  - rewrite entry_writes_guest_skipped; [constructor| |done].
    by rewrite some_required_missing_filterQuery.
Qed.

(** ** The last write to a key *)

Lemma last_write_app (ops1 ops2 : list (string * JsVal)) (key : string) :
  last_write (ops1 ++ ops2) key
  = match last_write ops2 key with
    | Some v => Some v
    | None => last_write ops1 key
    end.
Proof.
  induction ops2 as [|op ops2 IH] using rev_ind.
  - by rewrite app_nil_r.
  - rewrite app_assoc, !last_write_snoc, IH. by case_bool_decide.
Qed.

Lemma last_write_Some (ops : list (string * JsVal)) (key : string) (v : JsVal) :
  last_write ops key = Some v → (key, v) ∈ ops.
Proof.
  induction ops as [|op ops IH] using rev_ind; [done|].
  rewrite last_write_snoc, elem_of_app. case_bool_decide as Hk.
  - intros [= <-]. right. destruct op as [k w]. simpl in Hk. subst. by left.
  - intros Hl. left. by apply IH.
Qed.

(** When every element writes to its own key and the keys are distinct, the
    last write to a key is the one of the element carrying that key. *)
Lemma last_write_bind (f : string * QVal → list (string * JsVal))
    (l : list (string * QVal)) (key : string) (value : QVal) :
  (∀ e, Forall (λ op, op.1 = e.1) (f e)) →
  NoDup l.*1 → (key, value) ∈ l →
  last_write (l ≫= f) key = last_write (f (key, value)) key.
Proof.
  intros Hown. induction l as [|e l IH]; intros Hnd Hin.
  - by apply elem_of_nil in Hin.
  - rewrite fmap_cons in Hnd. apply NoDup_cons in Hnd as [He Hnd].
    rewrite bind_cons, last_write_app.
    apply elem_of_cons in Hin as [<-|Hin].
    + rewrite last_write_None; [done|].
      apply Forall_bind, Forall_forall. intros e' He'. simpl.
      eapply Forall_impl; [apply Hown|]. intros op Hop. simpl in Hop.
      rewrite Hop. intros Heq. apply He. simpl. rewrite <- Heq.
      apply list_elem_of_fmap. by exists e'.
    + rewrite IH by done.
      destruct (last_write (f (key, value)) key) as [v|] eqn:Hl; [done|].
      apply last_write_None. eapply Forall_impl; [apply Hown|].
      intros op Hop. simpl in Hop. rewrite Hop. intros Heq. apply He.
      apply list_elem_of_fmap. exists (key, value). by rewrite Heq.
Qed.

Lemma wf_filterQuery (q : Query) : wf_query q → wf_query (filterQuery q).
Proof.
  unfold wf_query, filterQuery. intros Hnd.
  eapply sublist_NoDup; [exact Hnd|]. apply fmap_sublist, sublist_filter.
Qed.

Lemma store_get_lookup (st1 st2 : gmap string JsVal) (key : string) :
  st1 !! key = st2 !! key → store_get st1 key = store_get st2 key.
Proof. unfold store_get. by intros ->. Qed.

(** * The claims *)

Ltac solve_query_has :=
  unfold query_has, wf_query, resetParam, ContentfulParams.reset; simpl;
  repeat (rewrite ?elem_of_cons, ?elem_of_nil, ?NoDup_cons);
  repeat split; try apply NoDup_nil_2; try (intuition congruence).

(** ** Reset *)

(** C1, as stated, fails: with the reset parameter present but empty
    ([?reset=]), the test [query[resetParam]] is falsy, the reset branch is not
    taken, the guest fields keep their values and a client is built. *)
Lemma reset_empty_value_not_honoured :
  query_has emptyResetQuery resetParam
  ∧ ¬ reset_outcome emptyResetQuery fullState (reconcile emptyResetQuery fullState).
Proof.
  split; [solve_query_has|].
  intros (Hguest & _). specialize (Hguest "space_id").
  discriminate Hguest. unfold guestSpaceRequiredParameters. simpl. left.
Qed.

(** C1, amended: for every query whose reset parameter has a truthy value (a
    non-empty string, or a repeated parameter), the pass unsets [space_id],
    [delivery_token] and [preview_token], leaves [preview] and [xray] as they
    were, and the hook then returns no client. *)
Theorem reset_clears_guest_fields (query : Query) (st : gmap string JsVal) :
  js_truthy (query_get query resetParam) = true →
  reset_outcome query st (reconcile query st).
Proof.
  intros Hr. unfold reset_outcome.
  rewrite reconcile_replay, pass_writes_reset by done.
  split; [|split; [|split]].
  - intros key Hkey.
    cbv [guestSpaceRequiredParameters guestSpaceOptionalParameters app] in Hkey.
    rewrite !elem_of_cons in Hkey.
    unfold store_get. rewrite lookup_replay.
    destruct Hkey as [->|[->|[->|Hnil]]]; [reflexivity..|].
    by apply elem_of_nil in Hnil.
  - apply store_get_lookup. by apply lookup_replay_untouched; repeat constructor.
  - apply store_get_lookup. by apply lookup_replay_untouched; repeat constructor.
  - unfold useContentfulUtility_result. rewrite Hr, orb_true_r. reflexivity.
Qed.

Lemma reset_clears_guest_fields_witness :
  reset_outcome resetQuery fullState (reconcile resetQuery fullState).
Proof. apply (reset_clears_guest_fields resetQuery fullState). reflexivity. Defined.

(** ** Guest parameters *)

(** Outside the reset branch, a key the query does not have is not touched. *)
Lemma absent_key_untouched (query : Query) (st : gmap string JsVal) (key : string) :
  js_truthy (query_get query resetParam) = false →
  ¬ query_has query key →
  reconcile query st !! key = st !! key.
Proof.
  intros Hr Hkey. rewrite reconcile_replay. apply lookup_replay_untouched.
  eapply Forall_impl; [by apply pass_writes_present|].
  intros op Hop. simpl in Hop. by intros <-.
Qed.

(** C2, evaluation at the failing input: the state holds a preview token and
    the query brings both required parameters but no [preview_token] key; the
    callback only runs for the keys the query has, so the pruning branch is
    not reached and the stored preview token is still there after the pass. *)
Theorem stale_preview_token_survives :
  ¬ query_has requiredOnlyQuery "preview_token"
  ∧ ¬ query_has requiredOnlyQuery resetParam
  ∧ store_get fullState "preview_token" = VStr "ptok"
  ∧ store_get (reconcile requiredOnlyQuery fullState) "preview_token" = VStr "ptok"
  ∧ writes requiredOnlyQuery fullState
    = [("space_id", VStr "abc"); ("delivery_token", VStr "tok1")].
Proof. repeat split; try reflexivity; solve_query_has. Qed.

(** C3: a query without the reset parameter that has exactly one of
    [space_id] and [delivery_token] leaves both fields of the store as they
    were, and makes no write to either. *)
Theorem partial_required_group_not_written (query : Query) (st : gmap string JsVal) :
  ¬ query_has query resetParam →
  (query_has query "space_id" ∧ ¬ query_has query "delivery_token")
  ∨ (¬ query_has query "space_id" ∧ query_has query "delivery_token") →
  reconcile query st !! "space_id" = st !! "space_id"
  ∧ reconcile query st !! "delivery_token" = st !! "delivery_token"
  ∧ Forall (λ op, op.1 ∉ guestSpaceRequiredParameters) (writes query st).
Proof.
  intros Hr%no_reset_falsy Hone.
  assert (some_required_missing (query_get query) = true) as Hmiss.
  { rewrite some_required_missing_unfold.
    destruct Hone as [[_ Hd]|[Hs _]].
    - rewrite (query_get_absent _ _ Hd). simpl. by rewrite orb_true_r.
    - by rewrite (query_get_absent _ _ Hs). }
  pose proof (pass_writes_incomplete query Hr Hmiss) as Hed.
  assert (∀ key, key ∈ guestSpaceRequiredParameters →
                 Forall (λ op, op.1 ≠ key) (pass_writes query)) as Hne.
  { intros key Hkey. eapply Forall_impl; [exact Hed|].
    intros op Hop. simpl in Hop. intros <-. revert Hop Hkey.
    unfold editorialParameters, guestSpaceRequiredParameters.
    rewrite !elem_of_cons, !elem_of_nil.
    intros [->|[->|[]]] [?|[?|[]]]; discriminate. }
  rewrite reconcile_replay, writes_pass_writes. split; [|split].
  - apply lookup_replay_untouched, Hne. left.
  - apply lookup_replay_untouched, Hne. right. left.
  - apply Forall_forall. intros op Hop Hkey.
    specialize (Hne _ Hkey). rewrite Forall_forall in Hne. by apply (Hne op).
Qed.

Lemma partial_required_group_not_written_witness :
  reconcile spaceOnlyQuery fullState !! "space_id" = fullState !! "space_id"
  ∧ reconcile spaceOnlyQuery fullState !! "delivery_token" = fullState !! "delivery_token"
  ∧ Forall (λ op, op.1 ∉ guestSpaceRequiredParameters) (writes spaceOnlyQuery fullState).
Proof.
  apply (partial_required_group_not_written spaceOnlyQuery fullState).
  - solve_query_has.
  - left. solve_query_has.
Defined.

(** C9: in a query without the reset parameter, a [space_id] or
    [delivery_token] whose value is the empty string counts as missing: the
    pass writes to no guest field, required or optional, and leaves them as
    they were. *)
Theorem empty_required_value_blocks_guest_writes (query : Query)
    (st : gmap string JsVal) :
  ¬ query_has query resetParam →
  query_get query "space_id" = VStr "" ∨ query_get query "delivery_token" = VStr "" →
  Forall (λ op, op.1 ∉ guestSpaceRequiredParameters ++ guestSpaceOptionalParameters)
         (writes query st)
  ∧ ∀ key, key ∈ guestSpaceRequiredParameters ++ guestSpaceOptionalParameters →
           reconcile query st !! key = st !! key.
Proof.
  intros Hr%no_reset_falsy Hempty.
  assert (some_required_missing (query_get query) = true) as Hmiss.
  { rewrite some_required_missing_unfold.
    destruct Hempty as [->| ->]; simpl; [done|]. by rewrite orb_true_r. }
  pose proof (pass_writes_incomplete query Hr Hmiss) as Hed.
  assert (∀ key, key ∈ guestSpaceRequiredParameters ++ guestSpaceOptionalParameters →
                 Forall (λ op, op.1 ≠ key) (pass_writes query)) as Hne.
  { intros key Hkey. eapply Forall_impl; [exact Hed|].
    intros op Hop. simpl in Hop. intros <-. revert Hop Hkey.
    cbv [editorialParameters guestSpaceRequiredParameters
         guestSpaceOptionalParameters app].
    rewrite !elem_of_cons, !elem_of_nil.
    intros [->|[->|[]]] [?|[?|[?|[]]]]; discriminate. }
  rewrite writes_pass_writes. split.
  - apply Forall_forall. intros op Hop Hkey.
    specialize (Hne _ Hkey). rewrite Forall_forall in Hne. by apply (Hne op).
  - intros key Hkey. rewrite reconcile_replay. by apply lookup_replay_untouched, Hne.
Qed.

Lemma empty_required_value_blocks_guest_writes_witness :
  Forall (λ op, op.1 ∉ guestSpaceRequiredParameters ++ guestSpaceOptionalParameters)
         (writes emptySpaceQuery fullState)
  ∧ ∀ key, key ∈ guestSpaceRequiredParameters ++ guestSpaceOptionalParameters →
           reconcile emptySpaceQuery fullState !! key = fullState !! key.
Proof.
  apply (empty_required_value_blocks_guest_writes emptySpaceQuery fullState).
  - solve_query_has.
  - left. reflexivity.
Defined.

(** ** The client gate *)

(** C4, as stated, fails: with both required fields set and the reset
    parameter present but empty, the claim expects no client, and the hook
    builds one. *)
Lemma gate_ignores_empty_reset :
  query_has emptyResetQuery resetParam
  ∧ client (useContentfulUtility_result emptyResetQuery fullState)
    = Some {| url := "https://graphql.contentful.com/content/v1/spaces/abc/";
              headers := [("Content-Type", "application/json");
                          ("Authorization", "Bearer tok1")] |}.
Proof. split; [solve_query_has|reflexivity]. Qed.

(** C4, amended: when [space_id] and [delivery_token] of the state are truthy
    (set and not the empty string) and the reset parameter of the query is
    falsy (absent or empty), the hook returns [preview], [xray] and a client
    for [https://graphql.<domain>/content/v1/spaces/<space_id>/] whose bearer
    credential is [preview_token] when [preview] is truthy and
    [delivery_token] otherwise; in every other case it returns [preview],
    [xray] and no client. *)
Theorem client_gate_decision (query : Query) (st : gmap string JsVal) :
  (js_truthy (store_get st "space_id") = true →
   js_truthy (store_get st "delivery_token") = true →
   js_truthy (query_get query resetParam) = false →
   useContentfulUtility_result query st
   = {| res_preview := store_get st "preview";
        res_xray := store_get st "xray";
        client := Some
          {| url := "https://graphql." +:+ js_to_string (store_get st "domain")
                      +:+ "/content/v1/spaces/"
                      +:+ js_to_string (store_get st "space_id") +:+ "/";
             headers :=
               [("Content-Type", "application/json");
                ("Authorization",
                 "Bearer " +:+ js_to_string
                   (store_get st (if js_truthy (store_get st "preview")
                                  then "preview_token" else "delivery_token")))] |} |})
  ∧ (js_truthy (store_get st "space_id") = false
     ∨ js_truthy (store_get st "delivery_token") = false
     ∨ js_truthy (query_get query resetParam) = true →
     useContentfulUtility_result query st
     = {| res_preview := store_get st "preview";
          res_xray := store_get st "xray";
          client := None |}).
Proof.
  unfold useContentfulUtility_result. rewrite some_required_missing_unfold. split.
  - intros -> -> ->. simpl. by destruct (js_truthy (store_get st "preview")).
  - intros [-> | [-> | ->]]; simpl; rewrite ?orb_true_r; reflexivity.
Qed.

Lemma client_gate_decision_witness :
  useContentfulUtility_result previewQuery fullState
  = {| res_preview := VBool false;
       res_xray := VBool false;
       client := Some
         {| url := "https://graphql.contentful.com/content/v1/spaces/abc/";
            headers := [("Content-Type", "application/json");
                        ("Authorization", "Bearer tok1")] |} |}
  ∧ useContentfulUtility_result resetQuery fullState
    = {| res_preview := VBool false; res_xray := VBool false; client := None |}.
Proof.
  split.
  - apply (proj1 (client_gate_decision previewQuery fullState)); reflexivity.
  - apply (proj2 (client_gate_decision resetQuery fullState)).
    right. right. reflexivity.
Defined.

(** ** Editorial parameters *)

(** C5: in a query without the reset parameter, an editorial parameter whose
    value is the string [true] sets its store field to [true], the string
    [false] sets it to [false], and any other value leaves the field as it
    was. *)
Theorem editorial_coercion (query : Query) (st : gmap string JsVal)
    (key : string) (value : QVal) :
  wf_query query →
  ¬ query_has query resetParam →
  key ∈ editorialParameters →
  (key, value) ∈ query →
  (value = QStr "true" → store_get (reconcile query st) key = VBool true)
  ∧ (value = QStr "false" → store_get (reconcile query st) key = VBool false)
  ∧ (value ≠ QStr "true" → value ≠ QStr "false" →
     reconcile query st !! key = st !! key).
Proof.
  intros Hwf Hr%no_reset_falsy Hed Hin.
  assert (key = ContentfulParams.preview ∨ key = ContentfulParams.xray) as Hkey.
  { unfold editorialParameters in Hed. rewrite !elem_of_cons, elem_of_nil in Hed. tauto. }
  assert (key ∈ allParams) as Hall.
  { apply elem_of_allParams. destruct Hkey as [->| ->]; tauto. }
  assert (reconcile query st !! key
          = match last_write (entry_writes query (filterQuery query) (key, value)) key with
            | Some v => Some v
            | None => st !! key
            end) as Hlook.
  { rewrite reconcile_replay, lookup_replay, pass_writes_no_reset by done.
    rewrite (last_write_bind _ _ key value); [done| |by apply wf_filterQuery|].
    - apply entry_writes_own_key.
    - by apply list_elem_of_filter. }
  rewrite entry_writes_unfold in Hlook.
  rewrite bool_decide_eq_true_2 in Hlook by done.
  unfold store_get. rewrite Hlook. clear Hlook. split; [|split].
  - intros ->. simpl. unfold last_write. simpl. by rewrite bool_decide_eq_true_2.
  - intros ->. simpl. unfold last_write. simpl. by rewrite bool_decide_eq_true_2.
  - intros Ht Hf. destruct value as [s|l]; simpl; [|done].
    rewrite !bool_decide_eq_false_2; [done| |]; congruence.
Qed.

Lemma editorial_coercion_witness :
  (QStr "true" = QStr "true" →
   store_get (reconcile previewQuery fullState) "xray" = VBool true)
  ∧ (QStr "true" = QStr "false" →
     store_get (reconcile previewQuery fullState) "xray" = VBool false)
  ∧ (QStr "true" ≠ QStr "true" → QStr "true" ≠ QStr "false" →
     reconcile previewQuery fullState !! "xray" = fullState !! "xray").
Proof.
  apply (editorial_coercion previewQuery fullState "xray" (QStr "true")).
  - solve_query_has.
  - solve_query_has.
  - unfold editorialParameters. right. left.
  - unfold previewQuery. right. left.
Defined.

(** ** Reachable states *)

(** The fields with defaults keep a value over a pass: [domain] is never
    written, [preview] and [xray] only receive booleans. *)
Lemma defaults_preserved (query : Query) (st : gmap string JsVal) :
  (∃ b, st !! "preview" = Some (VBool b)) →
  (∃ b, st !! "xray" = Some (VBool b)) →
  (∃ b, reconcile query st !! "preview" = Some (VBool b))
  ∧ (∃ b, reconcile query st !! "xray" = Some (VBool b))
  ∧ reconcile query st !! "domain" = st !! "domain".
Proof.
  intros Hp Hx. rewrite reconcile_replay.
  assert (∀ key, key ∈ editorialParameters →
                 (∃ b, st !! key = Some (VBool b)) →
                 ∃ b, replay (pass_writes query) st !! key = Some (VBool b)) as Hed.
  { intros key Hkey Hst. rewrite lookup_replay.
    destruct (last_write (pass_writes query) key) as [v|] eqn:Hl; [|done].
    apply last_write_Some in Hl.
    pose proof (pass_writes_editorial_bool query) as Hb.
    rewrite Forall_forall in Hb. destruct (Hb _ Hl Hkey) as [b Hv].
    simpl in Hv. subst. by exists b. }
  split; [|split].
  - apply Hed; [|done]. left.
  - apply Hed; [|done]. right. left.
  - apply lookup_replay_untouched.
    eapply Forall_impl; [apply pass_writes_recognised|].
    intros op Hop. simpl in Hop. intros Heq. rewrite Heq in Hop.
    apply elem_of_allParams in Hop. destruct Hop as [?|[?|[?|[?|?]]]]; discriminate.
Qed.

Lemma reachable_defaults (st : gmap string JsVal) :
  reachable st →
  (∃ b, st !! "preview" = Some (VBool b))
  ∧ (∃ b, st !! "xray" = Some (VBool b))
  ∧ st !! "domain" = Some (VStr "contentful.com").
Proof.
  induction 1 as [|query st Hreach (Hp & Hx & Hd)].
  - split; [|split]; [by exists false..|done].
  - destruct (defaults_preserved query st Hp Hx) as (Hp' & Hx' & Hd').
    split; [|split]; [done..|]. by rewrite Hd'.
Qed.

(** C6: in every state reachable from the initial state by reconciliation
    passes on arbitrary queries, [domain], [preview] and [xray] are defined. *)
Theorem defaults_always_defined (st : gmap string JsVal) :
  reachable st →
  store_get st "domain" ≠ VUndef
  ∧ store_get st "preview" ≠ VUndef
  ∧ store_get st "xray" ≠ VUndef.
Proof.
  intros ([bp Hp] & [bx Hx] & Hd)%reachable_defaults.
  unfold store_get. by rewrite Hp, Hx, Hd.
Qed.

Lemma defaults_always_defined_witness :
  store_get (reconcile resetQuery (reconcile previewQuery initialState)) "domain" ≠ VUndef
  ∧ store_get (reconcile resetQuery (reconcile previewQuery initialState)) "preview" ≠ VUndef
  ∧ store_get (reconcile resetQuery (reconcile previewQuery initialState)) "xray" ≠ VUndef.
Proof.
  apply (defaults_always_defined
           (reconcile resetQuery (reconcile previewQuery initialState))).
  apply reachable_pass, reachable_pass, reachable_initial.
Defined.

(** ** Algebra of passes *)

(** C7: a second pass with the same query changes nothing. *)
Theorem reconcile_idempotent (query : Query) (st : gmap string JsVal) :
  reconcile query (reconcile query st) = reconcile query st.
Proof. rewrite !reconcile_replay. apply replay_idemp. Qed.

(** C10: the [setState] calls of a pass are the same whatever the state
    before it, and the state after the pass is the state before it with those
    calls applied. *)
Theorem writes_independent_of_store (query : Query) (st1 st2 : gmap string JsVal) :
  writes query st1 = writes query st2
  ∧ reconcile query st1 = replay (writes query st2) st1.
Proof. by rewrite !writes_pass_writes, reconcile_replay. Qed.

(** ** Unrecognised parameters *)

Lemma query_get_relevant_part (query : Query) (key : string) :
  key ∈ allParams ∨ key = resetParam →
  query_get (relevant_part query) key = query_get query key.
Proof.
  intros Hkey. unfold relevant_part.
  by apply (query_get_filter (λ e, e.1 ∈ allParams ∨ e.1 = resetParam)).
Qed.

Lemma filterQuery_relevant_part (query : Query) :
  filterQuery (relevant_part query) = filterQuery query.
Proof.
  unfold filterQuery, relevant_part. apply list_filter_filter_l. tauto.
Qed.

Lemma pass_writes_relevant_part (query : Query) :
  pass_writes (relevant_part query) = pass_writes query.
Proof.
  unfold pass_writes.
  rewrite query_get_relevant_part by (by right).
  case_match; [done|]. rewrite filterQuery_relevant_part.
  apply Forall_bind_ext, Forall_forall.
  intros [key value] [Hkey _]%list_elem_of_filter. simpl in Hkey.
  rewrite !entry_writes_unfold.
  rewrite !query_get_relevant_part; [done|by left|by right].
Qed.

(** C8: every write of a pass goes to one of [space_id], [delivery_token],
    [preview_token], [preview], [xray]; any other key of the store is left as
    it was; and the entries of the query under other names (the reset
    parameter apart) have no influence on the writes or on the resulting
    state. *)
Theorem unrecognised_parameters_dropped (query : Query) (st : gmap string JsVal) :
  Forall (λ op, op.1 ∈ ["space_id"; "delivery_token"; "preview_token"; "preview"; "xray"])
         (writes query st)
  ∧ (∀ key, key ∉ ["space_id"; "delivery_token"; "preview_token"; "preview"; "xray"] →
            reconcile query st !! key = st !! key)
  ∧ writes (relevant_part query) st = writes query st
  ∧ reconcile (relevant_part query) st = reconcile query st.
Proof.
  rewrite !writes_pass_writes, !reconcile_replay, pass_writes_relevant_part.
  assert (∀ key, key ∈ ["space_id"; "delivery_token"; "preview_token"; "preview"; "xray"]
                 ↔ key ∈ allParams) as Hall.
  { intros key. rewrite elem_of_allParams, !elem_of_cons, elem_of_nil. tauto. }
  repeat split.
  - eapply Forall_impl; [apply pass_writes_recognised|].
    intros op Hop. by apply Hall.
  - intros key Hkey. apply lookup_replay_untouched.
    eapply Forall_impl; [apply pass_writes_recognised|].
    intros op Hop. simpl in Hop. intros Heq. apply Hkey, Hall. by rewrite <- Heq.
Qed.

(** * Further properties of the hook *)

(** ** The value of a key after a pass *)

Lemma lookup_reconcile_entry (query : Query) (st : gmap string JsVal)
    (key : string) (value : QVal) :
  wf_query query →
  js_truthy (query_get query resetParam) = false →
  key ∈ allParams →
  (key, value) ∈ query →
  reconcile query st !! key
  = match last_write (entry_writes query (filterQuery query) (key, value)) key with
    | Some v => Some v
    | None => st !! key
    end.
Proof.
  intros Hwf Hr Hall Hin.
  rewrite reconcile_replay, lookup_replay, pass_writes_no_reset by done.
  rewrite (last_write_bind _ _ key value); [done| |by apply wf_filterQuery|].
  - apply entry_writes_own_key.
  - by apply list_elem_of_filter.
Qed.

Lemma lookup_reconcile_unrecognised (query : Query) (st : gmap string JsVal)
    (key : string) :
  key ∉ allParams → reconcile query st !! key = st !! key.
Proof.
  intros Hkey. rewrite reconcile_replay. apply lookup_replay_untouched.
  eapply Forall_impl; [apply pass_writes_recognised|].
  intros op Hop. simpl in Hop. by intros <-.
Qed.

(** The required group of a query is complete when both entries are there
    with truthy values. *)
Lemma complete_group_not_missing (query : Query) (v1 v2 : QVal) :
  wf_query query →
  ("space_id", v1) ∈ query → ("delivery_token", v2) ∈ query →
  js_truthy (of_query v1) = true → js_truthy (of_query v2) = true →
  some_required_missing (query_get (filterQuery query)) = false.
Proof.
  intros Hwf H1 H2 Ht1 Ht2.
  rewrite some_required_missing_filterQuery, some_required_missing_unfold.
  rewrite (query_get_entry _ _ v1), (query_get_entry _ _ v2) by done.
  by rewrite Ht1, Ht2.
Qed.

(** ** A complete guest group *)

(** X1: a query object whose reset parameter is falsy and which has both
    [space_id] and [delivery_token] with truthy values has these two values in
    the store after the pass, whatever the store held before. *)
Theorem complete_group_stored (query : Query) (st : gmap string JsVal) (v1 v2 : QVal) :
  wf_query query →
  js_truthy (query_get query resetParam) = false →
  ("space_id", v1) ∈ query → ("delivery_token", v2) ∈ query →
  js_truthy (of_query v1) = true → js_truthy (of_query v2) = true →
  store_get (reconcile query st) "space_id" = of_query v1
  ∧ store_get (reconcile query st) "delivery_token" = of_query v2.
Proof.
  intros Hwf Hr H1 H2 Ht1 Ht2.
  pose proof (complete_group_not_missing query v1 v2 Hwf H1 H2 Ht1 Ht2) as Hc.
  unfold store_get. split.
  - rewrite (lookup_reconcile_entry query st "space_id" v1);
      [|done|done|apply elem_of_allParams; tauto|done].
    rewrite entry_writes_unfold, Hr, Hc. reflexivity.
  - rewrite (lookup_reconcile_entry query st "delivery_token" v2);
      [|done|done|apply elem_of_allParams; tauto|done].
    rewrite entry_writes_unfold, Hr, Hc. reflexivity.
Qed.

Lemma complete_group_stored_witness :
  store_get (reconcile scenarioQuery initialState) "space_id" = VStr "abc"
  ∧ store_get (reconcile scenarioQuery initialState) "delivery_token" = VStr "tok1".
Proof.
  apply (complete_group_stored scenarioQuery initialState (QStr "abc") (QStr "tok1")).
  - solve_query_has.
  - reflexivity.
  - unfold scenarioQuery. left.
  - unfold scenarioQuery. right. left.
  - reflexivity.
  - reflexivity.
Defined.

(** X2: with a complete required group and a falsy reset parameter, a
    [preview_token] entry of the query is stored when its value is truthy, and
    the stored preview token is unset when its value is the empty string. *)
Theorem preview_token_stored_or_pruned (query : Query) (st : gmap string JsVal)
    (v1 v2 v3 : QVal) :
  wf_query query →
  js_truthy (query_get query resetParam) = false →
  ("space_id", v1) ∈ query → ("delivery_token", v2) ∈ query →
  js_truthy (of_query v1) = true → js_truthy (of_query v2) = true →
  ("preview_token", v3) ∈ query →
  store_get (reconcile query st) "preview_token"
  = if js_truthy (of_query v3) then of_query v3 else VUndef.
Proof.
  intros Hwf Hr H1 H2 Ht1 Ht2 H3.
  pose proof (complete_group_not_missing query v1 v2 Hwf H1 H2 Ht1 Ht2) as Hc.
  unfold store_get.
  rewrite (lookup_reconcile_entry query st "preview_token" v3);
    [|done|done|apply elem_of_allParams; tauto|done].
  rewrite entry_writes_unfold, Hr, Hc.
  rewrite (query_get_entry _ _ v3) by done.
  destruct (js_truthy (of_query v3)); reflexivity.
Qed.

Lemma preview_token_stored_or_pruned_witness :
  store_get (reconcile prunePreviewTokenQuery fullState) "preview_token" = VUndef.
Proof.
  apply (preview_token_stored_or_pruned prunePreviewTokenQuery fullState
           (QStr "abc") (QStr "tok1") (QStr "")).
  - solve_query_has.
  - reflexivity.
  - unfold prunePreviewTokenQuery. left.
  - unfold prunePreviewTokenQuery. right. left.
  - reflexivity.
  - reflexivity.
  - unfold prunePreviewTokenQuery. right. right. left.
Defined.

Lemma required_value_stored (query : Query) (st : gmap string JsVal)
    (key : string) (value : QVal) :
  wf_query query →
  js_truthy (query_get query resetParam) = false →
  some_required_missing (query_get (filterQuery query)) = false →
  key ∈ guestSpaceRequiredParameters →
  (key, value) ∈ query →
  reconcile query st !! key = Some (of_query value).
Proof.
  intros Hwf Hr Hc Hkey Hin.
  unfold guestSpaceRequiredParameters in Hkey. rewrite !elem_of_cons in Hkey.
  rewrite (lookup_reconcile_entry query st key value); [|done|done| |done].
  - rewrite entry_writes_unfold, Hr, Hc.
    destruct Hkey as [->|[->|Hnil]]; [reflexivity..|]. by apply elem_of_nil in Hnil.
  - apply elem_of_allParams.
    destruct Hkey as [->|[->|Hnil]]; [tauto..|]. by apply elem_of_nil in Hnil.
Qed.

(** X3: a client is built right after a complete guest group arrives.  For a
    query object with a falsy reset parameter and truthy [space_id] and
    [delivery_token], the hook on the state after the pass returns a client
    whose endpoint carries the [space_id] of the query and the [domain] of the
    state before the pass, and whose credential is the stored preview token
    when [preview] is truthy after the pass and the [delivery_token] of the
    query otherwise. *)
Theorem client_after_complete_group (query : Query) (st : gmap string JsVal)
    (v1 v2 : QVal) :
  wf_query query →
  js_truthy (query_get query resetParam) = false →
  ("space_id", v1) ∈ query → ("delivery_token", v2) ∈ query →
  js_truthy (of_query v1) = true → js_truthy (of_query v2) = true →
  client (useContentfulUtility_result query (reconcile query st))
  = Some
      {| url := "https://graphql." +:+ js_to_string (store_get st "domain")
                  +:+ "/content/v1/spaces/" +:+ js_to_string (of_query v1) +:+ "/";
         headers :=
           [("Content-Type", "application/json");
            ("Authorization",
             "Bearer " +:+ js_to_string
               (if js_truthy (store_get (reconcile query st) "preview")
                then store_get (reconcile query st) "preview_token"
                else of_query v2))] |}.
Proof.
  intros Hwf Hr H1 H2 Ht1 Ht2.
  pose proof (complete_group_not_missing query v1 v2 Hwf H1 H2 Ht1 Ht2) as Hc.
  assert (store_get (reconcile query st) "space_id" = of_query v1) as Hs.
  { unfold store_get. rewrite (required_value_stored query st "space_id" v1); try done.
    left. }
  assert (store_get (reconcile query st) "delivery_token" = of_query v2) as Hd.
  { unfold store_get. rewrite (required_value_stored query st "delivery_token" v2); try done.
    right. left. }
  assert (store_get (reconcile query st) "domain" = store_get st "domain") as Hdom.
  { apply store_get_lookup, lookup_reconcile_unrecognised.
    rewrite elem_of_allParams. intros [?|[?|[?|[?|?]]]]; discriminate. }
  unfold useContentfulUtility_result.
  rewrite some_required_missing_unfold, Hs, Hd, Hdom, Ht1, Ht2, Hr. reflexivity.
Qed.

Lemma client_after_complete_group_witness :
  client (useContentfulUtility_result scenarioQuery (reconcile scenarioQuery initialState))
  = Some {| url := "https://graphql.contentful.com/content/v1/spaces/abc/";
            headers := [("Content-Type", "application/json");
                        ("Authorization", "Bearer undefined")] |}.
Proof.
  apply (client_after_complete_group scenarioQuery initialState (QStr "abc") (QStr "tok1")).
  - solve_query_has.
  - reflexivity.
  - unfold scenarioQuery. left.
  - unfold scenarioQuery. right. left.
  - reflexivity.
  - reflexivity.
Defined.

(** ** What a pass leaves alone *)

(** X4: outside the reset branch, a store field whose parameter the query
    does not have is not written and keeps its value; there is no pruning of
    fields the URL no longer mentions, neither required nor optional. *)
Theorem absent_parameter_keeps_stored_value (query : Query) (st : gmap string JsVal)
    (key : string) :
  js_truthy (query_get query resetParam) = false →
  ¬ query_has query key →
  reconcile query st !! key = st !! key
  ∧ Forall (λ op, op.1 ≠ key) (writes query st).
Proof.
  intros Hr Hkey. split; [by apply absent_key_untouched|].
  rewrite writes_pass_writes.
  eapply Forall_impl; [by apply pass_writes_present|].
  intros op Hop. simpl in Hop. by intros <-.
Qed.

Lemma absent_parameter_keeps_stored_value_witness :
  reconcile previewQuery fullState !! "delivery_token" = fullState !! "delivery_token"
  ∧ Forall (λ op, op.1 ≠ "delivery_token") (writes previewQuery fullState).
Proof.
  apply (absent_parameter_keeps_stored_value previewQuery fullState "delivery_token").
  - reflexivity.
  - solve_query_has.
Defined.

(** X5: a query with none of the five recognised parameters and a falsy
    reset parameter makes no [setState] call and leaves the whole state as it
    is, so a guest session survives navigation to such URLs. *)
Theorem unrelated_query_is_noop (query : Query) (st : gmap string JsVal) :
  js_truthy (query_get query resetParam) = false →
  (∀ key, key ∈ allParams → ¬ query_has query key) →
  writes query st = [] ∧ reconcile query st = st.
Proof.
  intros Hr Hnone.
  assert (filterQuery query = []) as Hf.
  { apply elem_of_nil_inv. intros e [He Hin]%list_elem_of_filter.
    apply (Hnone e.1 He). unfold query_has. apply list_elem_of_fmap. by exists e. }
  rewrite writes_pass_writes, reconcile_replay, pass_writes_no_reset, Hf by done.
  done.
Qed.

Lemma unrelated_query_is_noop_witness :
  writes campaignQuery fullState = [] ∧ reconcile campaignQuery fullState = fullState.
Proof.
  apply (unrelated_query_is_noop campaignQuery fullState).
  - reflexivity.
  - intros key Hkey%elem_of_allParams.
    destruct Hkey as [->|[->|[->|[->| ->]]]]; solve_query_has.
Defined.

(** X6: a client never appears without a complete group.  When the state
    lacks a truthy [space_id] or [delivery_token], a pass on a query whose
    reset parameter is truthy, or which itself lacks a truthy [space_id] or
    [delivery_token], leaves a state on which the hook returns no client, for
    any query it is rendered with. *)
Theorem no_client_without_complete_group (query query' : Query)
    (st : gmap string JsVal) :
  some_required_missing (store_get st) = true →
  js_truthy (query_get query resetParam) = true
  ∨ some_required_missing (query_get query) = true →
  client (useContentfulUtility_result query' (reconcile query st)) = None.
Proof.
  intros Hst Hq.
  assert (some_required_missing (store_get (reconcile query st)) = true) as Hmiss.
  { destruct (js_truthy (query_get query resetParam)) eqn:Hr.
    - rewrite some_required_missing_unfold. unfold store_get.
      rewrite reconcile_replay, !lookup_replay, pass_writes_reset by done.
      reflexivity.
    - destruct Hq as [Hq|Hq]; [discriminate|].
      pose proof (pass_writes_incomplete query Hr Hq) as Hed.
      rewrite some_required_missing_unfold in *. unfold store_get in *.
      rewrite reconcile_replay.
      rewrite !lookup_replay_untouched; [done| |];
        (eapply Forall_impl; [exact Hed|]); intros op Hop; simpl in Hop;
        intros Heq; rewrite Heq in Hop; revert Hop;
        unfold editorialParameters; rewrite !elem_of_cons, elem_of_nil;
        intros [?|[?|[]]]; discriminate. }
  unfold useContentfulUtility_result. by rewrite Hmiss.
Qed.

Lemma no_client_without_complete_group_witness :
  client (useContentfulUtility_result [] (reconcile spaceOnlyQuery initialState)) = None.
Proof.
  apply (no_client_without_complete_group spaceOnlyQuery [] initialState).
  - reflexivity.
  - right. reflexivity.
Defined.

(** ** Enumeration order *)

Lemma wf_query_Permutation (q1 q2 : Query) :
  q1 ≡ₚ q2 → wf_query q1 → wf_query q2.
Proof. unfold wf_query. intros Hperm. by rewrite Hperm. Qed.

Lemma query_get_Permutation (q1 q2 : Query) (key : string) :
  wf_query q1 → q1 ≡ₚ q2 → query_get q1 key = query_get q2 key.
Proof.
  intros Hwf Hperm.
  pose proof (wf_query_Permutation q1 q2 Hperm Hwf) as Hwf2.
  destruct (decide (key ∈ q1.*1)) as [Hin|Hnin].
  - apply list_elem_of_fmap in Hin as [[k v] [-> Hin]]. simpl.
    rewrite (query_get_entry q1 k v) by done.
    rewrite (query_get_entry q2 k v); [done..|]. by rewrite <- Hperm.
  - rewrite (query_get_absent q1), (query_get_absent q2); [done| |done].
    unfold query_has. by rewrite <- Hperm.
Qed.

(** X7: the state after a pass does not depend on the order in which
    [Object.entries] enumerates the query object. *)
Theorem reconcile_order_independent (q1 q2 : Query) (st : gmap string JsVal) :
  wf_query q1 → q1 ≡ₚ q2 → reconcile q1 st = reconcile q2 st.
Proof.
  intros Hwf Hperm.
  pose proof (wf_query_Permutation q1 q2 Hperm Hwf) as Hwf2.
  pose proof (query_get_Permutation q1 q2 resetParam Hwf Hperm) as Hreset.
  apply map_eq. intros key.
  destruct (js_truthy (query_get q1 resetParam)) eqn:Hr1.
  - rewrite !reconcile_replay, !pass_writes_reset; [done| |done]. by rewrite <- Hreset.
  - assert (js_truthy (query_get q2 resetParam) = false) as Hr2 by (by rewrite <- Hreset).
    destruct (decide (key ∈ allParams)) as [Hall|Hall];
      [|by rewrite !lookup_reconcile_unrecognised].
    destruct (decide (key ∈ q1.*1)) as [Hin|Hnin].
    + apply list_elem_of_fmap in Hin as [[k v] [-> Hin]]. simpl in *.
      assert ((k, v) ∈ q2) as Hin2 by (by rewrite <- Hperm).
      rewrite (lookup_reconcile_entry q1 st k v), (lookup_reconcile_entry q2 st k v) by done.
      rewrite !entry_writes_unfold, !some_required_missing_filterQuery.
      rewrite !some_required_missing_unfold.
      rewrite <- Hreset.
      rewrite <- (query_get_Permutation q1 q2 "space_id" Hwf Hperm).
      rewrite <- (query_get_Permutation q1 q2 "delivery_token" Hwf Hperm).
      by rewrite <- (query_get_Permutation q1 q2 k Hwf Hperm).
    + assert (¬ query_has q2 key) as Hnin2.
      { unfold query_has. by rewrite <- Hperm. }
      by rewrite (absent_key_untouched q1 st key Hr1 Hnin),
        (absent_key_untouched q2 st key Hr2 Hnin2).
Qed.

Lemma reconcile_order_independent_witness :
  reconcile scenarioQuerySwapped fullState = reconcile scenarioQuery fullState.
Proof.
  apply (reconcile_order_independent scenarioQuerySwapped scenarioQuery fullState).
  - solve_query_has.
  - apply perm_swap.
Defined.

(** ** Reachable states *)

(** X8: in every state reachable from the initial state, a client the hook
    builds talks to the host [graphql.contentful.com]: no pass writes
    [domain], so the other host variants are never selected. *)
Theorem reachable_client_host (query : Query) (st : gmap string JsVal)
    (c : GraphQLClient) :
  reachable st →
  client (useContentfulUtility_result query st) = Some c →
  url c = "https://graphql.contentful.com/content/v1/spaces/"
            +:+ js_to_string (store_get st "space_id") +:+ "/".
Proof.
  intros (_ & _ & Hd)%reachable_defaults.
  unfold useContentfulUtility_result.
  destruct (some_required_missing (store_get st) || js_truthy (query_get query resetParam));
    simpl; [discriminate|].
  intros [= <-]. simpl. unfold store_get at 1. by rewrite Hd.
Qed.

Lemma reachable_client_host_witness :
  url {| url := "https://graphql.contentful.com/content/v1/spaces/abc/";
         headers := [("Content-Type", "application/json");
                     ("Authorization", "Bearer undefined")] |}
  = "https://graphql.contentful.com/content/v1/spaces/"
      +:+ js_to_string (store_get (reconcile scenarioQuery initialState) "space_id") +:+ "/".
Proof.
  apply (reachable_client_host [] (reconcile scenarioQuery initialState)).
  - apply reachable_pass, reachable_initial.
  - reflexivity.
Defined.

(** On a query object, a guest field only ever receives [undefined] or a
    truthy value. *)
Lemma pass_writes_guest_values (query : Query) :
  wf_query query →
  Forall (λ op, op.1 ∈ guestSpaceRequiredParameters ++ guestSpaceOptionalParameters →
                op.2 = VUndef ∨ js_truthy op.2 = true)
         (pass_writes query).
Proof.
  intros Hwf. destruct (js_truthy (query_get query resetParam)) eqn:Hr.
  - rewrite pass_writes_reset by done.
    repeat (constructor; [intros _; by left|]). constructor.
  - rewrite pass_writes_no_reset by done. apply Forall_bind, Forall_forall.
    intros [key value] [Hall Hin]%list_elem_of_filter. simpl in Hall. simpl.
    pose proof (query_get_entry query key value Hwf Hin) as Hget.
    destruct (decide (key ∈ editorialParameters)) as [Hed|Hed].
    { apply Forall_forall. intros op Hop Hguest. exfalso.
      pose proof (entry_writes_own_key query (filterQuery query) (key, value)) as Hown.
      rewrite Forall_forall in Hown. specialize (Hown op Hop). simpl in Hown.
      rewrite Hown in Hguest. revert Hed Hguest.
      cbv [editorialParameters guestSpaceRequiredParameters
           guestSpaceOptionalParameters app].
      rewrite !elem_of_cons, !elem_of_nil.
      intros [->|[->|[]]] [?|[?|[?|[]]]]; discriminate. }
    rewrite entry_writes_unfold, Hr, some_required_missing_filterQuery.
    rewrite some_required_missing_unfold.
    rewrite bool_decide_eq_false_2.
    2:{ intros Hk. apply Hed. unfold editorialParameters.
        rewrite !elem_of_cons. tauto. }
    destruct (negb (js_truthy (query_get query "space_id"))
              || negb (js_truthy (query_get query "delivery_token"))) eqn:Hmiss;
      [constructor|].
    apply orb_false_elim in Hmiss as [Hs%negb_false_iff Hd%negb_false_iff].
    case_bool_decide as Hopt; simpl.
    + destruct (js_truthy (query_get query key)) eqn:Hk; simpl.
      * constructor; [|constructor]. intros _. right. simpl. by rewrite <- Hget.
      * constructor; [|constructor]. intros _. by left.
    + constructor; [|constructor]. simpl. intros Hguest. right. revert Hguest.
      cbv [guestSpaceRequiredParameters guestSpaceOptionalParameters app].
      rewrite !elem_of_cons, elem_of_nil. intros [->|[->|[->|[]]]].
      * by rewrite <- Hget.
      * by rewrite <- Hget.
      * exfalso. apply Hopt. left.
Qed.

(** X9: in every state reachable from the initial state by passes on query
    objects, each guest field is either unset or truthy: the store never holds
    an empty string for [space_id], [delivery_token] or [preview_token]. *)
Theorem stored_guest_fields_never_empty (st : gmap string JsVal) (key : string) :
  reachable_obj st →
  key ∈ guestSpaceRequiredParameters ++ guestSpaceOptionalParameters →
  store_get st key = VUndef ∨ js_truthy (store_get st key) = true.
Proof.
  intros Hreach Hkey. induction Hreach as [|query st Hwf Hreach IH].
  - left. revert Hkey.
    cbv [guestSpaceRequiredParameters guestSpaceOptionalParameters app].
    rewrite !elem_of_cons, elem_of_nil. intros [->|[->|[->|[]]]]; reflexivity.
  - unfold store_get in *. rewrite reconcile_replay, lookup_replay.
    destruct (last_write (pass_writes query) key) as [v|] eqn:Hl; [|done].
    apply last_write_Some in Hl.
    pose proof (pass_writes_guest_values query Hwf) as Hvals.
    rewrite Forall_forall in Hvals. by apply (Hvals _ Hl).
Qed.

Lemma stored_guest_fields_never_empty_witness :
  store_get (reconcile prunePreviewTokenQuery initialState) "preview_token" = VUndef
  ∨ js_truthy (store_get (reconcile prunePreviewTokenQuery initialState) "preview_token")
    = true.
Proof.
  apply (stored_guest_fields_never_empty
           (reconcile prunePreviewTokenQuery initialState) "preview_token").
  - apply reachable_obj_pass; [solve_query_has|apply reachable_obj_initial].
  - unfold guestSpaceRequiredParameters, guestSpaceOptionalParameters. right. right. left.
Defined.
